(** * Shallow embedding of the gexpect Go binding (src/expect.go)

    The package is a cgo binding to the libexpect C library.  The Go side
    (pattern validation, construction of the [exp_case] array, narrowing
    conversions, error wrapping, the process-wide settings) is embedded
    here function by function.  The two C entry points the binding calls,
    [exp_spawnv] and [exp_expectv], belong to libexpect and are kept as
    section variables: every theorem below holds for any behaviour of
    them.  Go [int] and [uint] are 64-bit, C [int] is 32-bit. *)

From Stdlib Require Import ZArith String List Bool Lia.
Import ListNotations.
Open Scope string_scope.
Open Scope Z_scope.

(** ** Machine integers *)

(** Conversion of a Go integer to C [int] (32-bit, two's complement):
    [C.int(x)] keeps the low 32 bits and reads them as signed. *)
Definition to_int32 (x : Z) : Z :=
  let m := x mod 2 ^ 32 in
  if 2 ^ 31 <=? m then m - 2 ^ 32 else m.

(** Conversion to C [uint32]. *)
Definition to_uint32 (x : Z) : Z := x mod 2 ^ 32.

(** A Go [uint] (64-bit) value. *)
Definition is_uint (x : Z) : Prop := 0 <= x < 2 ^ 64.

(** ** Decimal formatting, as [fmt] prints integers *)

Fixpoint digits_aux (fuel : nat) (n : N) (acc : string) : string :=
  match fuel with
  | O => acc
  | S f =>
      let d := N.modulo n 10 in
      let c := Ascii.ascii_of_N (48 + d) in
      let q := N.div n 10 in
      if (q =? 0)%N then String c acc else digits_aux f q (String c acc)
  end.

Definition string_of_N (n : N) : string := digits_aux (S (N.size_nat n)) n "".

Definition string_of_Z (z : Z) : string :=
  if z <? 0 then "-" ++ string_of_N (Z.to_N (- z)) else string_of_N (Z.to_N z).

(** ** Errors *)

(** Values of Go's [error] interface that reach the binding: a
    [syscall.Errno] (what cgo returns as the second result of a C call),
    or any other error, represented by the text its [Error] method gives.
    [syscall.Errno.Error] looks the number up in the platform's message
    table, which belongs to the Go runtime, not to this package, and
    differs between platforms: an [Errno] carries its number together with
    that table's text for it. *)
Inductive go_error :=
| Errno (n : N) (msg : string)
| OtherError (msg : string).

(** The [Error] method of a Go error value. *)
Definition error_string (e : go_error) : string :=
  match e with
  | Errno _ msg => msg
  | OtherError msg => msg
  end.

(** Three errnos with their Linux numbers and texts, for the examples. *)
Definition ENOENT : go_error := Errno 2 "no such file or directory".
Definition ESRCH : go_error := Errno 3 "no such process".
Definition EBADF : go_error := Errno 9 "bad file descriptor".

(** ** Data model *)

(** [type Pattern struct { Type int; Pattern string; Value uint }];
    the fields [Type] and [Pattern] get a trailing underscore. *)
Record Pattern := mkPattern {
  Type_ : Z;
  Pattern_ : string;
  Value : Z
}.

(** Pattern types. *)
Definition _End : Z := 0.
Definition Glob : Z := 1.
Definition Exact : Z := 2.
Definition RegExp : Z := 3.
Definition Compiled : Z := 4.
Definition Null : Z := 5.

(** Return codes. *)
Definition ERROR : Z := -1.
Definition TIMEOUT : Z := -2.
Definition FULLBUFFER : Z := -5.
Definition EOF : Z := -11.

(** [type ExpectError struct { Pattern *Pattern; Err error }]; a nil
    pointer or nil interface is [None]. *)
Record ExpectError := mkExpectError {
  ePattern : option Pattern;
  eErr : option go_error
}.

(** [fmt.Sprintf("%v", p)] for [p : *Pattern] (non-nil): ["&{" ... "}"]
    with the fields separated by spaces. *)
Definition fmt_pattern_ptr (p : Pattern) : string :=
  "&{" ++ string_of_Z (Type_ p) ++ " " ++ Pattern_ p ++ " "
       ++ string_of_Z (Value p) ++ "}".

(** [func (e *ExpectError) Error() string]; [None] is the nil dereference
    panic of [e.Err.Error()] when both fields are nil. *)
Definition Error (e : ExpectError) : option string :=
  match ePattern e with
  | None =>
      match eErr e with
      | Some err => Some (error_string err)
      | None => None
      end
  | Some p => Some ("Bad Pattern: " ++ fmt_pattern_ptr p)
  end.

(** An [*os.File]. *)
Record File := mkFile { file_fd : Z; file_name : string }.

(** [os.NewFile(uintptr(fd), name)]: nil when the descriptor is negative. *)
Definition NewFile (fd : Z) (name : string) : option File :=
  if fd <? 0 then None else Some (mkFile fd name).

(** [type Process struct { Fd int; Pid int; File *os.File }] *)
Record Process := mkProcess {
  Fd : Z;
  Pid : Z;
  File_ : option File
}.

(** [C.struct_exp_case { pattern; re; type; value }]: [None] for a nil
    pointer; [re] is always nil in this binding and is left out. *)
Record exp_case := mkExpCase {
  c_pattern : option string;
  c_type : Z;
  c_value : Z
}.

(** The libexpect globals written by the setters. *)
Record Globals := mkGlobals {
  exp_timeout : Z;
  exp_is_debugging : Z;
  exp_loguser : Z
}.

(** The shape the comment on [ExpectError] describes: exactly one of
    [Pattern] and [Err] is set. *)
Definition one_field_set (e : ExpectError) : bool :=
  match ePattern e, eErr e with
  | Some _, None => true
  | None, Some _ => true
  | _, _ => false
  end.

(** ** Operations *)

Section Binding.

(** The state of the operating system's descriptors and processes, which
    libexpect reads and writes. *)
Variable Streams : Type.

(** [exp_spawnv(file, argv)] of libexpect: the descriptor it returns, the
    errno cgo reports ([None] for errno 0), the value of [exp_pid] after
    the call, and the new system state. *)
Variable exp_spawnv :
  string -> list string -> Streams -> Z * option go_error * Z * Streams.

(** [exp_expectv(fd, ecases)] of libexpect: the C [int] it returns, the
    errno cgo reports, and the new system state.  The libexpect globals
    are an input: the engine reads them. *)
Variable exp_expectv :
  Globals -> Z -> list exp_case -> Streams -> (Z * option go_error) * Streams.

(** The process-wide state: libexpect's globals and the system. *)
Record World := mkWorld {
  globals : Globals;
  streams : Streams
}.

(** [SetTimeout]: [C.exp_timeout = C.int(timeout)]. *)
Definition SetTimeout (timeout : Z) (w : World) : World :=
  let g := globals w in
  mkWorld (mkGlobals (to_int32 timeout) (exp_is_debugging g) (exp_loguser g))
          (streams w).

(** [SetDebugging]: [C.exp_is_debugging] set to 1 or 0. *)
Definition SetDebugging (debug : bool) (w : World) : World :=
  let g := globals w in
  mkWorld (mkGlobals (exp_timeout g) (if debug then 1 else 0) (exp_loguser g))
          (streams w).

(** [LogToConsole]: [C.exp_loguser] set to 1 or 0. *)
Definition LogToConsole (log : bool) (w : World) : World :=
  let g := globals w in
  mkWorld (mkGlobals (exp_timeout g) (exp_is_debugging g) (if log then 1 else 0))
          (streams w).

(** [Spawn(file, args...)]: [cargv] is [file], the [args], then a nil
    terminator (the nil is implicit in the list); on a reported errno the
    result is [&Process{Fd: -1}] with the error, otherwise the descriptor,
    [exp_pid] and [os.NewFile(uintptr(fd), file)]. *)
Definition Spawn (file : string) (args : list string) (w : World)
  : (Process * option ExpectError) * World :=
  let '(fd, errno, pid, s') := exp_spawnv file (file :: args) (streams w) in
  let w' := mkWorld (globals w) s' in
  match errno with
  | Some e => ((mkProcess (-1) 0 None, Some (mkExpectError None (Some e))), w')
  | None => ((mkProcess fd pid (NewFile fd file), None), w')
  end.

(** The [switch v.Type] of [Expectl]: only Glob, Exact and RegExp pass. *)
Definition valid_type (t : Z) : bool :=
  (t =? Glob) || (t =? Exact) || (t =? RegExp).

(** The validation loop: the first pattern that fails the switch. *)
Fixpoint first_bad (patterns : list Pattern) : option Pattern :=
  match patterns with
  | [] => None
  | v :: rest => if valid_type (Type_ v) then first_bad rest else Some v
  end.

(** [C.struct_exp_case{C.CString(v.Pattern), nil, uint32(v.Type), C.int(v.Value)}] *)
Definition case_of_pattern (v : Pattern) : exp_case :=
  mkExpCase (Some (Pattern_ v)) (to_uint32 (Type_ v)) (to_int32 (Value v)).

(** [C.struct_exp_case{nil, nil, uint32(_End), 0}] *)
Definition end_case : exp_case := mkExpCase None (to_uint32 _End) 0.

(** [ecases]: [len(patterns) + 1] entries, entry [i] built from pattern
    [i], the last one the end terminator. *)
Definition make_ecases (patterns : list Pattern) : list exp_case :=
  map case_of_pattern patterns ++ [end_case].

(** The call [C.exp_expectv(C.int(p.Fd), &ecases[0])]. *)
Definition engine_call (p : Process) (patterns : list Pattern) (w : World)
  : (Z * option go_error) * Streams :=
  exp_expectv (globals w) (to_int32 (Fd p)) (make_ecases patterns) (streams w).

(** [func (p *Process) Expectl(patterns ...Pattern) (int, *ExpectError)] *)
Definition Expectl (p : Process) (patterns : list Pattern) (w : World)
  : (Z * option ExpectError) * World :=
  match first_bad patterns with
  | Some v => ((ERROR, Some (mkExpectError (Some v) None)), w)
  | None =>
      let '((value, errno), s') := engine_call p patterns w in
      let w' := mkWorld (globals w) s' in
      match errno with
      | Some e => ((ERROR, Some (mkExpectError None (Some e))), w')
      | None => ((value, None), w')
      end
  end.

(** A program's calls into the package, in order. *)
Inductive op :=
| OpSetTimeout (timeout : Z)
| OpSetDebugging (debug : bool)
| OpLogToConsole (log : bool)
| OpSpawn (file : string) (args : list string)
| OpExpectl (p : Process) (patterns : list Pattern).

Definition step (o : op) (w : World) : World :=
  match o with
  | OpSetTimeout t => SetTimeout t w
  | OpSetDebugging d => SetDebugging d w
  | OpLogToConsole l => LogToConsole l w
  | OpSpawn file args => snd (Spawn file args w)
  | OpExpectl p patterns => snd (Expectl p patterns w)
  end.

Fixpoint run_ops (ops : list op) (w : World) : World :=
  match ops with
  | [] => w
  | o :: rest => run_ops rest (step o w)
  end.

Definition sets_timeout (o : op) : bool :=
  match o with OpSetTimeout _ => true | _ => false end.
Definition sets_debugging (o : op) : bool :=
  match o with OpSetDebugging _ => true | _ => false end.
Definition sets_loguser (o : op) : bool :=
  match o with OpLogToConsole _ => true | _ => false end.

(** [os.FindProcess(pid)]: the error it reports, if any (on Unix it only
    builds the handle and never fails). *)
Variable os_FindProcess : Z -> Streams -> option go_error.

(** [proc.Kill()]: the error it reports and the new system state. *)
Variable os_Kill : Z -> Streams -> option go_error * Streams.

(** [func (p *Process) KillChild() *ExpectError] *)
Definition KillChild (p : Process) (w : World) : option ExpectError * World :=
  match os_FindProcess (Pid p) (streams w) with
  | Some e => (Some (mkExpectError None (Some e)), w)
  | None =>
      let '(r, s') := os_Kill (Pid p) (streams w) in
      let w' := mkWorld (globals w) s' in
      match r with
      | Some e => (Some (mkExpectError None (Some e)), w')
      | None => (None, w')
      end
  end.

End Binding.

Arguments mkWorld {Streams}.
Arguments globals {Streams}.
Arguments streams {Streams}.
Arguments SetTimeout {Streams}.
Arguments SetDebugging {Streams}.
Arguments LogToConsole {Streams}.
Arguments Spawn {Streams}.
Arguments engine_call {Streams}.
Arguments Expectl {Streams}.
Arguments step {Streams}.
Arguments run_ops {Streams}.
Arguments KillChild {Streams}.

(** ** A concrete system for running the binding on examples

    Not libexpect: one child whose pending output is a string.  The engine
    returns the value of the first case whose text occurs in that output
    and drops the output up to the end of the match, fails with EBADF on a
    negative descriptor and otherwise times out.  Spawning ["/bin/echox"]
    fails with ENOENT. *)

Fixpoint first_hit (cases : list exp_case) (out : string) : option (Z * nat) :=
  match cases with
  | [] => None
  | c :: rest =>
      match c_pattern c with
      | Some pat =>
          match index 0 pat out with
          | Some i => Some (c_value c, i + String.length pat)%nat
          | None => first_hit rest out
          end
      | None => first_hit rest out
      end
  end.

Definition toy_expectv (g : Globals) (fd : Z) (cases : list exp_case) (out : string)
  : (Z * option go_error) * string :=
  if fd <? 0 then ((-1, Some EBADF), out)
  else match first_hit cases out with
       | Some (v, k) => ((v, None), substring k (String.length out - k) out)
       | None => ((TIMEOUT, None), out)
       end.

Definition toy_spawnv (file : string) (argv : list string) (out : string)
  : Z * option go_error * Z * string :=
  if String.eqb file "/bin/echox" then (-1, Some ENOENT, 0, out)
  else (3, None, 100, out).

Definition toy_world (out : string) : World string :=
  mkWorld (mkGlobals 10 0 0) out.

Definition toy_process : Process := mkProcess 3 100 (Some (mkFile 3 "sed")).

(** Process lookup never fails; killing the child 100 succeeds and ends
    its output, any other pid gives ESRCH. *)
Definition toy_findprocess (pid : Z) (out : string) : option go_error := None.

Definition toy_kill (pid : Z) (out : string) : option go_error * string :=
  if pid =? 100 then (None, "") else (Some ESRCH, out).

(** ** Properties of the binding, for any behaviour of libexpect *)

Section Properties.

Variable Streams : Type.
Variable exp_spawnv :
  string -> list string -> Streams -> Z * option go_error * Z * Streams.
Variable exp_expectv :
  Globals -> Z -> list exp_case -> Streams -> (Z * option go_error) * Streams.

Lemma first_bad_none_iff (patterns : list Pattern) :
  first_bad patterns = None <-> Forall (fun v => valid_type (Type_ v) = true) patterns.
Proof.
  induction patterns as [|v rest IH]; simpl.
  - split; auto.
  - destruct (valid_type (Type_ v)) eqn:Hv.
    + rewrite IH. split; intro H; [constructor; auto | inversion H; auto].
    + split; intro H; [discriminate | inversion H; congruence].
Qed.

Lemma first_bad_app (pre : list Pattern) (v : Pattern) (post : list Pattern) :
  Forall (fun q => valid_type (Type_ q) = true) pre ->
  valid_type (Type_ v) = false ->
  first_bad (pre ++ v :: post) = Some v.
Proof.
  induction 1 as [|q pre Hq _ IH]; intro Hv; simpl.
  - rewrite Hv. reflexivity.
  - rewrite Hq. apply IH. exact Hv.
Qed.

(** C2: if some pattern's kind is not Glob, Exact or RegExp, [Expectl]
    returns [ERROR] with a BadPattern error holding the first such pattern
    (its full value, with a nil [Err]), and the world, system state
    included, is returned unchanged: libexpect is not called. *)
Theorem Expectl_bad_pattern (p : Process) (pre : list Pattern) (v : Pattern)
    (post : list Pattern) (w : World Streams) :
  Forall (fun q => valid_type (Type_ q) = true) pre ->
  valid_type (Type_ v) = false ->
  Expectl exp_expectv p (pre ++ v :: post) w
  = ((ERROR, Some (mkExpectError (Some v) None)), w).
Proof.
  intros Hpre Hv. unfold Expectl. rewrite (first_bad_app pre v post Hpre Hv).
  reflexivity.
Qed.

(** With valid patterns and no errno, [Expectl] returns libexpect's code. *)
Lemma Expectl_no_errno (p : Process) (patterns : list Pattern)
    (w : World Streams) (v : Z) (s' : Streams) :
  first_bad patterns = None ->
  engine_call exp_expectv p patterns w = ((v, None), s') ->
  Expectl exp_expectv p patterns w = ((v, None), mkWorld (globals w) s').
Proof.
  intros Hv Hc. unfold Expectl. rewrite Hv, Hc. reflexivity.
Qed.

(** C3: when [exp_spawnv] reports an errno, [Spawn] returns
    [&Process{Fd: -1}] (no descriptor, no pid, a nil [File]) and an
    [ExpectError] with a nil [Pattern] whose message is the errno's own
    text, unchanged. *)
Theorem Spawn_failure (file : string) (args : list string) (w : World Streams)
    (fd pid : Z) (err : go_error) (s' : Streams) :
  exp_spawnv file (file :: args) (streams w) = (fd, Some err, pid, s') ->
  Spawn exp_spawnv file args w
  = ((mkProcess (-1) 0 None, Some (mkExpectError None (Some err))),
     mkWorld (globals w) s')
  /\ Error (mkExpectError None (Some err)) = Some (error_string err).
Proof.
  intro H. unfold Spawn. rewrite H. split; reflexivity.
Qed.

(** C5: [Expectl] returns an error carrying a system error [err] exactly
    when the patterns are valid and libexpect reported [err]; such an
    error always comes with [ERROR] and a nil [Pattern]; when libexpect
    reports no errno, its code (TIMEOUT, EOF, FULLBUFFER included) is
    returned with a nil error. *)
Theorem Expectl_hard_error_iff_errno (p : Process) (patterns : list Pattern)
    (w : World Streams) :
  (forall err,
     (exists r e w', Expectl exp_expectv p patterns w = ((r, Some e), w')
                     /\ eErr e = Some err)
     <-> (first_bad patterns = None
          /\ exists v s', engine_call exp_expectv p patterns w = ((v, Some err), s')))
  /\ (forall r e w', Expectl exp_expectv p patterns w = ((r, Some e), w') ->
        eErr e <> None -> r = ERROR /\ ePattern e = None)
  /\ (forall v s', first_bad patterns = None ->
        engine_call exp_expectv p patterns w = ((v, None), s') ->
        Expectl exp_expectv p patterns w = ((v, None), mkWorld (globals w) s')).
Proof.
  unfold Expectl. destruct (first_bad patterns) as [bad|].
  - split; [|split].
    + intro err; split.
      * intros (r & e & w' & H & He). inversion H; subst. discriminate.
      * intros [H _]. discriminate.
    + intros r e w' H Hne. inversion H; subst. simpl in Hne. congruence.
    + intros v s' H. discriminate.
  - destruct (engine_call exp_expectv p patterns w) as [[v0 [e0|]] s0] eqn:Hc.
    + split; [|split].
      * intro err; split.
        -- intros (r & e & w' & H & He). inversion H; subst. simpl in He.
           inversion He; subst. split; [reflexivity | eauto].
        -- intros [_ (v & s' & H)]. inversion H; subst. eauto.
      * intros r e w' H _. inversion H; subst. auto.
      * intros v s' _ H. discriminate.
    + split; [|split].
      * intro err; split.
        -- intros (r & e & w' & H & _). discriminate.
        -- intros [_ (v & s' & H)]. discriminate.
      * intros r e w' H. discriminate.
      * intros v s' _ H. inversion H; subst. reflexivity.
Qed.

(** C6: [Error] of an [ExpectError] with a nil [Pattern] and an error
    [err] is [err]'s own message; with a non-nil [Pattern] it is
    ["Bad Pattern: "] followed by the [%v] rendering of the pointer. *)
Theorem Error_message (e : ExpectError) :
  (ePattern e = None -> forall err, eErr e = Some err ->
     Error e = Some (error_string err))
  /\ (forall p, ePattern e = Some p ->
        Error e = Some ("Bad Pattern: " ++ fmt_pattern_ptr p)).
Proof.
  unfold Error. split.
  - intros H err H'. rewrite H, H'. reflexivity.
  - intros p H. rewrite H. reflexivity.
Qed.

(** The case array: one entry per pattern in input order, then the end
    terminator. *)
Lemma make_ecases_shape (patterns : list Pattern) :
  length (make_ecases patterns) = S (length patterns)
  /\ (forall i v, nth_error patterns i = Some v ->
        nth_error (make_ecases patterns) i = Some (case_of_pattern v))
  /\ nth_error (make_ecases patterns) (length patterns) = Some end_case.
Proof.
  unfold make_ecases. split; [|split].
  - rewrite length_app, length_map. simpl. lia.
  - intros i v H. rewrite nth_error_app1.
    + rewrite nth_error_map, H. reflexivity.
    + rewrite length_map. apply nth_error_Some. congruence.
  - rewrite nth_error_app2; rewrite length_map; [|lia].
    rewrite Nat.sub_diag. reflexivity.
Qed.

Lemma to_int32_neg_iff (x : Z) :
  to_int32 x < 0 <-> 2 ^ 31 <= x mod 2 ^ 32.
Proof.
  unfold to_int32.
  pose proof (Z.mod_pos_bound x (2 ^ 32) ltac:(lia)).
  destruct (Z.leb_spec (2 ^ 31) (x mod 2 ^ 32)); lia.
Qed.

(** C9: entry [i] of the case array carries pattern [i]'s [Value]
    narrowed to a 32-bit C [int]: negative exactly when [Value mod 2^32]
    is at least [2^31] (so [Value - 2^32] for every [Value] in
    [[2^31, 2^32)]); a match on it is returned as that narrowed number. *)
Theorem case_value_int32 (p : Process) (patterns : list Pattern) (i : nat)
    (v : Pattern) (w : World Streams) :
  nth_error patterns i = Some v ->
  (exists c, nth_error (make_ecases patterns) i = Some c
             /\ c_value c = to_int32 (Value v))
  /\ (to_int32 (Value v) < 0 <-> 2 ^ 31 <= Value v mod 2 ^ 32)
  /\ (2 ^ 31 <= Value v < 2 ^ 32 -> to_int32 (Value v) = Value v - 2 ^ 32)
  /\ (forall s', first_bad patterns = None ->
        engine_call exp_expectv p patterns w = ((to_int32 (Value v), None), s') ->
        fst (fst (Expectl exp_expectv p patterns w)) = to_int32 (Value v)).
Proof.
  intro H. split; [|split; [|split]].
  - exists (case_of_pattern v). split; [|reflexivity].
    apply (proj1 (proj2 (make_ecases_shape patterns))). exact H.
  - apply to_int32_neg_iff.
  - intro Hr. unfold to_int32.
    rewrite (Z.mod_small (Value v) (2 ^ 32)) by lia.
    destruct (Z.leb_spec (2 ^ 31) (Value v)); lia.
  - intros s' Hv Hc.
    rewrite (Expectl_no_errno p patterns w _ s' Hv Hc). reflexivity.
Qed.

Lemma Expectl_globals (p : Process) (patterns : list Pattern) (w : World Streams) :
  globals (snd (Expectl exp_expectv p patterns w)) = globals w.
Proof.
  unfold Expectl. destruct (first_bad patterns); [reflexivity|].
  destruct (engine_call exp_expectv p patterns w) as [[v [e|]] s']; reflexivity.
Qed.

Lemma Spawn_globals (file : string) (args : list string) (w : World Streams) :
  globals (snd (Spawn exp_spawnv file args w)) = globals w.
Proof.
  unfold Spawn. destruct (exp_spawnv file (file :: args) (streams w))
    as [[[fd [e|]] pid] s']; reflexivity.
Qed.

Lemma run_ops_app (ops1 ops2 : list op) (w : World Streams) :
  run_ops exp_spawnv exp_expectv (ops1 ++ ops2) w
  = run_ops exp_spawnv exp_expectv ops2 (run_ops exp_spawnv exp_expectv ops1 w).
Proof.
  revert w. induction ops1 as [|o ops1 IH]; intro w; simpl; auto.
Qed.

(** Each field of the globals is left alone by every call other than its
    own setter. *)
Lemma step_fields (o : op) (w : World Streams) :
  (sets_timeout o = false ->
     exp_timeout (globals (step exp_spawnv exp_expectv o w)) = exp_timeout (globals w))
  /\ (sets_debugging o = false ->
     exp_is_debugging (globals (step exp_spawnv exp_expectv o w))
     = exp_is_debugging (globals w))
  /\ (sets_loguser o = false ->
     exp_loguser (globals (step exp_spawnv exp_expectv o w)) = exp_loguser (globals w)).
Proof.
  destruct o as [t|d|l|file args|p patterns]; simpl;
    try rewrite Spawn_globals; try rewrite Expectl_globals;
    repeat split; intro H; solve [reflexivity | discriminate].
Qed.

Lemma run_ops_fields (ops : list op) (w : World Streams) :
  (forallb (fun o => negb (sets_timeout o)) ops = true ->
     exp_timeout (globals (run_ops exp_spawnv exp_expectv ops w)) = exp_timeout (globals w))
  /\ (forallb (fun o => negb (sets_debugging o)) ops = true ->
     exp_is_debugging (globals (run_ops exp_spawnv exp_expectv ops w))
     = exp_is_debugging (globals w))
  /\ (forallb (fun o => negb (sets_loguser o)) ops = true ->
     exp_loguser (globals (run_ops exp_spawnv exp_expectv ops w)) = exp_loguser (globals w)).
Proof.
  revert w. induction ops as [|o ops IH]; intro w; simpl.
  - repeat split; reflexivity.
  - destruct (step_fields o w) as (Ht & Hd & Hl).
    destruct (IH (step exp_spawnv exp_expectv o w)) as (IHt & IHd & IHl).
    repeat split; intro H; apply andb_prop in H; destruct H as [Ho Hr];
      apply negb_true_iff in Ho.
    + rewrite IHt by exact Hr. apply Ht, Ho.
    + rewrite IHd by exact Hr. apply Hd, Ho.
    + rewrite IHl by exact Hr. apply Hl, Ho.
Qed.

(** C8: each setter writes its own global only (the timeout narrowed to
    a C [int]) and leaves the other two and the system state alone; the
    last write of a setting is the value every later call sees, whatever
    spawns and [Expectl] calls come in between; [Expectl] hands the
    current globals to libexpect and returns them unchanged. *)
Theorem settings_last_writer_wins (w : World Streams) (ops1 ops2 : list op)
    (t : Z) (d l : bool) :
  (forallb (fun o => negb (sets_timeout o)) ops2 = true ->
     exp_timeout (globals (run_ops exp_spawnv exp_expectv
                             (ops1 ++ OpSetTimeout t :: ops2) w)) = to_int32 t)
  /\ (forallb (fun o => negb (sets_debugging o)) ops2 = true ->
     exp_is_debugging (globals (run_ops exp_spawnv exp_expectv
                                  (ops1 ++ OpSetDebugging d :: ops2) w))
     = if d then 1 else 0)
  /\ (forallb (fun o => negb (sets_loguser o)) ops2 = true ->
     exp_loguser (globals (run_ops exp_spawnv exp_expectv
                             (ops1 ++ OpLogToConsole l :: ops2) w))
     = if l then 1 else 0)
  /\ exp_is_debugging (globals (SetTimeout t w)) = exp_is_debugging (globals w)
  /\ exp_loguser (globals (SetTimeout t w)) = exp_loguser (globals w)
  /\ streams (SetTimeout t w) = streams w
  /\ exp_timeout (globals (SetDebugging d w)) = exp_timeout (globals w)
  /\ exp_loguser (globals (SetDebugging d w)) = exp_loguser (globals w)
  /\ streams (SetDebugging d w) = streams w
  /\ exp_timeout (globals (LogToConsole l w)) = exp_timeout (globals w)
  /\ exp_is_debugging (globals (LogToConsole l w)) = exp_is_debugging (globals w)
  /\ streams (LogToConsole l w) = streams w
  /\ (forall p patterns,
        engine_call exp_expectv p patterns w
        = exp_expectv (globals w) (to_int32 (Fd p)) (make_ecases patterns) (streams w)
        /\ globals (snd (Expectl exp_expectv p patterns w)) = globals w).
Proof.
  split; [|split; [|split]].
  - intro H. rewrite run_ops_app. simpl.
    rewrite (proj1 (run_ops_fields ops2 _) H). reflexivity.
  - intro H. rewrite run_ops_app. simpl.
    rewrite (proj1 (proj2 (run_ops_fields ops2 _)) H). reflexivity.
  - intro H. rewrite run_ops_app. simpl.
    rewrite (proj2 (proj2 (run_ops_fields ops2 _)) H). reflexivity.
  - repeat split; try reflexivity. apply Expectl_globals.
Qed.

End Properties.

(** C4: the sentinel codes are ERROR = -1, TIMEOUT = -2, FULLBUFFER = -5
    and EOF = -11; all are negative, so no non-negative code equals one. *)
Theorem sentinel_codes :
  ERROR = -1 /\ TIMEOUT = -2 /\ FULLBUFFER = -5 /\ EOF = -11
  /\ ERROR < 0 /\ TIMEOUT < 0 /\ FULLBUFFER < 0 /\ EOF < 0
  /\ (forall v, 0 <= v ->
        v <> ERROR /\ v <> TIMEOUT /\ v <> FULLBUFFER /\ v <> EOF).
Proof.
  unfold ERROR, TIMEOUT, FULLBUFFER, EOF.
  repeat split; try reflexivity; try lia.
Qed.

(** C7: a pattern whose [Value] is [2^32 - 1], a valid Go [uint], gets
    the case value [-1]; when it matches, [Expectl] returns [-1], that is
    [ERROR], with a nil error, not the [Value]. *)
Theorem Expectl_large_value_not_verbatim :
  let v := mkPattern Exact "hello world" (2 ^ 32 - 1) in
  is_uint (Value v)
  /\ c_value (case_of_pattern v) = -1
  /\ Expectl toy_expectv toy_process [v] (toy_world "hello world")
     = ((ERROR, None), toy_world "")
  /\ ERROR <> Value v.
Proof.
  intro v. split; [|split; [|split]].
  - unfold is_uint; simpl; lia.
  - vm_compute. reflexivity.
  - vm_compute. reflexivity.
  - unfold ERROR; simpl; lia.
Qed.

(** C9, as stated, fails for [Value = 2^32]: at least [2^31], a valid
    [uint], yet narrowed to [0], which is not negative. *)
Lemma case_value_2pow32_not_negative :
  ~ (forall v : Pattern, is_uint (Value v) -> 2 ^ 31 <= Value v ->
       c_value (case_of_pattern v) < 0).
Proof.
  intro H.
  assert (Hu : is_uint (Value (mkPattern Exact "x" (2 ^ 32))))
    by (unfold is_uint; simpl; lia).
  assert (Hge : 2 ^ 31 <= Value (mkPattern Exact "x" (2 ^ 32))) by (simpl; lia).
  assert (Hc : c_value (case_of_pattern (mkPattern Exact "x" (2 ^ 32))) = 0)
    by (vm_compute; reflexivity).
  specialize (H _ Hu Hge). rewrite Hc in H. lia.
Qed.

(** ** Witnesses: the theorems applied on concrete inputs *)

Lemma Expectl_bad_pattern_witness :
  valid_type Null = false /\ valid_type Compiled = false
  /\ Expectl toy_expectv toy_process
       ([mkPattern Glob "input" 1] ++ mkPattern Null "" 7 :: [mkPattern Compiled "x" 3])
       (toy_world "some input")
     = ((ERROR, Some (mkExpectError (Some (mkPattern Null "" 7)) None)),
        toy_world "some input").
Proof.
  split; [reflexivity | split; [reflexivity |]].
  apply (Expectl_bad_pattern string toy_expectv).
  - constructor; [reflexivity | constructor].
  - reflexivity.
Defined.

Lemma Spawn_failure_witness :
  Spawn toy_spawnv "/bin/echox" ["hello"; "world"] (toy_world "")
  = ((mkProcess (-1) 0 None, Some (mkExpectError None (Some ENOENT))),
     toy_world "")
  /\ Error (mkExpectError None (Some ENOENT)) = Some "no such file or directory".
Proof.
  apply (Spawn_failure string toy_spawnv "/bin/echox" ["hello"; "world"]
           (toy_world "") (-1) 0 ENOENT "").
  reflexivity.
Defined.

Lemma sentinel_codes_witness : 7 <> ERROR /\ 7 <> EOF.
Proof.
  destruct (proj2 (proj2 (proj2 (proj2 (proj2 (proj2 (proj2 (proj2 sentinel_codes)))))))
              7 ltac:(lia)) as (H1 & _ & _ & H4).
  split; assumption.
Defined.

Lemma Expectl_hard_error_iff_errno_witness :
  (exists r e w', Expectl toy_expectv (mkProcess (-1) 0 None) [mkPattern Glob "input" 1]
                    (toy_world "x") = ((r, Some e), w') /\ eErr e = Some EBADF)
  /\ Expectl toy_expectv toy_process [mkPattern Glob "input" 1] (toy_world "x")
     = ((TIMEOUT, None), toy_world "x").
Proof.
  split.
  - apply (proj1 (Expectl_hard_error_iff_errno string toy_expectv
                    (mkProcess (-1) 0 None) [mkPattern Glob "input" 1]
                    (toy_world "x")) EBADF).
    split; [reflexivity | exists (-1), "x"; reflexivity].
  - apply (proj2 (proj2 (Expectl_hard_error_iff_errno string toy_expectv toy_process
                           [mkPattern Glob "input" 1] (toy_world "x")))).
    + reflexivity.
    + reflexivity.
Defined.

Lemma Error_message_witness :
  Error (mkExpectError None (Some EBADF)) = Some "bad file descriptor"
  /\ Error (mkExpectError (Some (mkPattern 44 "bad pattern" 2)) None)
     = Some "Bad Pattern: &{44 bad pattern 2}".
Proof.
  split.
  - rewrite (proj1 (Error_message (mkExpectError None (Some EBADF))) eq_refl
               EBADF eq_refl).
    reflexivity.
  - rewrite (proj2 (Error_message (mkExpectError (Some (mkPattern 44 "bad pattern" 2)) None))
               _ eq_refl).
    vm_compute. reflexivity.
Defined.

Lemma settings_last_writer_wins_witness :
  exp_timeout (globals (run_ops toy_spawnv toy_expectv
     ([OpSetTimeout 5] ++ OpSetTimeout 1
        :: [OpSetDebugging true; OpExpectl toy_process [mkPattern Glob "input" 1];
            OpSpawn "sed" []])
     (toy_world ""))) = 1.
Proof.
  apply (proj1 (settings_last_writer_wins string toy_spawnv toy_expectv
                  (toy_world "") [OpSetTimeout 5]
                  [OpSetDebugging true; OpExpectl toy_process [mkPattern Glob "input" 1];
                   OpSpawn "sed" []] 1 true true)).
  reflexivity.
Defined.

Lemma case_value_int32_witness :
  to_int32 (Value (mkPattern Exact "a" (2 ^ 32 - 2))) = TIMEOUT
  /\ (exists c, nth_error (make_ecases [mkPattern Exact "a" (2 ^ 32 - 2)]) 0 = Some c
              /\ c_value c = to_int32 (Value (mkPattern Exact "a" (2 ^ 32 - 2)))).
Proof.
  split; [vm_compute; reflexivity |].
  apply (proj1 (case_value_int32 string toy_expectv toy_process
                  [mkPattern Exact "a" (2 ^ 32 - 2)] 0 (mkPattern Exact "a" (2 ^ 32 - 2))
                  (toy_world "a") eq_refl)).
Defined.

(** ** Further properties of the binding *)

Section Extras.

Variable Streams : Type.
Variable exp_spawnv :
  string -> list string -> Streams -> Z * option go_error * Z * Streams.
Variable exp_expectv :
  Globals -> Z -> list exp_case -> Streams -> (Z * option go_error) * Streams.
Variable os_FindProcess : Z -> Streams -> option go_error.
Variable os_Kill : Z -> Streams -> option go_error * Streams.

Lemma one_field_set_Error (e : ExpectError) :
  one_field_set e = true -> exists msg, Error e = Some msg.
Proof.
  unfold one_field_set, Error.
  destruct (ePattern e), (eErr e); intro H; try discriminate; eauto.
Qed.

(** Every [ExpectError] that [Spawn], [Expectl] or [KillChild] returns has
    exactly one of [Pattern] and [Err] set, so its [Error] method always
    yields a message (never the nil dereference). *)
Theorem returned_errors_well_formed (w : World Streams) (file : string)
    (args : list string) (p : Process) (patterns : list Pattern) :
  (forall e, snd (fst (Spawn exp_spawnv file args w)) = Some e ->
     one_field_set e = true /\ exists msg, Error e = Some msg)
  /\ (forall e, snd (fst (Expectl exp_expectv p patterns w)) = Some e ->
     one_field_set e = true /\ exists msg, Error e = Some msg)
  /\ (forall e, fst (KillChild os_FindProcess os_Kill p w) = Some e ->
     one_field_set e = true /\ exists msg, Error e = Some msg).
Proof.
  assert (Hok : forall e, one_field_set e = true ->
            one_field_set e = true /\ exists msg, Error e = Some msg)
    by (intros e H; split; [exact H | apply one_field_set_Error, H]).
  split; [|split]; intros e H; apply Hok.
  - revert H. unfold Spawn.
    destruct (exp_spawnv file (file :: args) (streams w)) as [[[fd [er|]] pid] s'];
      simpl; intro H; inversion H; reflexivity.
  - revert H. unfold Expectl. destruct (first_bad patterns) as [v|].
    + simpl. intro H; inversion H; reflexivity.
    + destruct (engine_call exp_expectv p patterns w) as [[r [er|]] s'];
        simpl; intro H; inversion H; reflexivity.
  - revert H. unfold KillChild. destruct (os_FindProcess (Pid p) (streams w)) as [er|].
    + simpl. intro H; inversion H; reflexivity.
    + destruct (os_Kill (Pid p) (streams w)) as [[er|] s'];
        simpl; intro H; inversion H; reflexivity.
Qed.

Lemma first_bad_some (patterns : list Pattern) (v : Pattern) :
  first_bad patterns = Some v -> In v patterns /\ valid_type (Type_ v) = false.
Proof.
  induction patterns as [|q rest IH]; simpl; [discriminate|].
  destruct (valid_type (Type_ q)) eqn:Hq.
  - intro H. destruct (IH H) as [Hin Hv]. auto.
  - intro H. inversion H; subst. auto.
Qed.

Lemma first_bad_exists (patterns : list Pattern) :
  first_bad patterns <> None <-> Exists (fun v => valid_type (Type_ v) = false) patterns.
Proof.
  induction patterns as [|q rest IH]; simpl.
  - split; [congruence | intro H; inversion H].
  - destruct (valid_type (Type_ q)) eqn:Hq.
    + rewrite IH. split; intro H.
      * right. exact H.
      * inversion H; subst; [congruence | assumption].
    + split; intro H; [left; exact Hq | discriminate].
Qed.

(** [Expectl] reports a BadPattern error exactly when some pattern's
    [Type] is not Glob, Exact or RegExp; the pattern it reports is one of
    the caller's patterns with such a [Type], and the code is then ERROR
    with the world unchanged. *)
Theorem Expectl_bad_pattern_iff (p : Process) (patterns : list Pattern)
    (w : World Streams) :
  ((exists v, snd (fst (Expectl exp_expectv p patterns w))
              = Some (mkExpectError (Some v) None))
   <-> Exists (fun v => valid_type (Type_ v) = false) patterns)
  /\ (forall v e, snd (fst (Expectl exp_expectv p patterns w)) = Some e ->
        ePattern e = Some v ->
        In v patterns /\ valid_type (Type_ v) = false
        /\ Expectl exp_expectv p patterns w = ((ERROR, Some e), w)).
Proof.
  rewrite <- first_bad_exists. unfold Expectl.
  destruct (first_bad patterns) as [bad|] eqn:Hb.
  - destruct (first_bad_some patterns bad Hb) as [Hin Hv]. simpl. split.
    + split; [intros _; congruence | intros _; eauto].
    + intros v e H Hp. inversion H; subst. simpl in Hp. inversion Hp; subst.
      auto.
  - destruct (engine_call exp_expectv p patterns w) as [[r [er|]] s']; simpl; split.
    + split; [intros [v H]; inversion H | congruence].
    + intros v e H Hp. inversion H; subst. discriminate.
    + split; [intros [v H]; inversion H | congruence].
    + intros v e H. discriminate.
Qed.

(** With valid patterns, entry [i] of the case array handed to libexpect
    is the end terminator (nil pattern, type [_End]) exactly when [i] is
    the last index [len(patterns)]; every earlier entry carries a
    non-nil text and a type among Glob, Exact and RegExp, so no caller
    pattern can end the list early. *)
Theorem make_ecases_terminator_last (patterns : list Pattern) :
  Forall (fun v => valid_type (Type_ v) = true) patterns ->
  forall i c, nth_error (make_ecases patterns) i = Some c ->
  (c_pattern c = None <-> i = length patterns)
  /\ (c_type c = _End <-> i = length patterns)
  /\ (i < length patterns ->
      c_type c = Glob \/ c_type c = Exact \/ c_type c = RegExp)%nat.
Proof.
  intros Hall i c Hc.
  destruct (make_ecases_shape patterns) as (Hlen & Hnth & Hend).
  destruct (Nat.lt_total i (length patterns)) as [Hlt | [Heq | Hgt]].
  - destruct (nth_error patterns i) as [v|] eqn:Hv.
    2: { apply nth_error_None in Hv. lia. }
    rewrite (Hnth i v Hv) in Hc. inversion Hc; subst. clear Hc.
    assert (Hval : valid_type (Type_ v) = true).
    { rewrite Forall_forall in Hall. apply Hall. eapply nth_error_In. exact Hv. }
    unfold valid_type, Glob, Exact, RegExp in Hval.
    assert (Ht : Type_ v = 1 \/ Type_ v = 2 \/ Type_ v = 3).
    { repeat rewrite orb_true_iff in Hval. rewrite !Z.eqb_eq in Hval. tauto. }
    unfold case_of_pattern, to_uint32, _End, Glob, Exact, RegExp; simpl.
    split; [split; [discriminate | lia] | split].
    + destruct Ht as [-> | [-> | ->]]; simpl; split; (discriminate || lia).
    + intros _. destruct Ht as [-> | [-> | ->]]; simpl; auto.
  - subst i. rewrite Hend in Hc. inversion Hc; subst. simpl.
    repeat split; auto; lia.
  - assert (Hn : nth_error (make_ecases patterns) i = None)
      by (apply nth_error_None; lia).
    congruence.
Qed.

(** A [Process] returned by [Spawn] has a nil [File] exactly when its
    [Fd] is negative; a non-nil [File] has descriptor [Fd] and is named
    after the spawned executable. *)
Theorem Spawn_process_file (file : string) (args : list string) (w : World Streams) :
  let proc := fst (fst (Spawn exp_spawnv file args w)) in
  (File_ proc = None <-> Fd proc < 0)
  /\ (forall f, File_ proc = Some f -> file_fd f = Fd proc /\ file_name f = file).
Proof.
  unfold Spawn.
  destruct (exp_spawnv file (file :: args) (streams w)) as [[[fd [er|]] pid] s']; simpl.
  - split; [split; intros; [lia | reflexivity] | intros f H; discriminate].
  - unfold NewFile. destruct (Z.ltb_spec fd 0) as [Hneg | Hnn]; simpl.
    + split; [split; intros; [lia | reflexivity] | intros f Hf; discriminate].
    + split; [split; [discriminate | lia] | intros f Hf; inversion Hf; auto].
Qed.

(** [KillChild] returns nil exactly when the process lookup and the kill
    both succeed; otherwise its error has a nil [Pattern] and carries the
    lookup's error, or else the kill's, with that error's own message.  A
    failed lookup sends no kill (the system state is unchanged), and the
    libexpect settings are never touched. *)
Theorem KillChild_outcomes (p : Process) (w : World Streams) :
  (fst (KillChild os_FindProcess os_Kill p w) = None
   <-> os_FindProcess (Pid p) (streams w) = None
       /\ fst (os_Kill (Pid p) (streams w)) = None)
  /\ (forall e, fst (KillChild os_FindProcess os_Kill p w) = Some e ->
        ePattern e = None
        /\ exists err, eErr e = Some err /\ Error e = Some (error_string err)
           /\ (os_FindProcess (Pid p) (streams w) = Some err
               \/ (os_FindProcess (Pid p) (streams w) = None
                   /\ fst (os_Kill (Pid p) (streams w)) = Some err)))
  /\ (os_FindProcess (Pid p) (streams w) <> None ->
        snd (KillChild os_FindProcess os_Kill p w) = w)
  /\ globals (snd (KillChild os_FindProcess os_Kill p w)) = globals w.
Proof.
  unfold KillChild.
  destruct (os_FindProcess (Pid p) (streams w)) as [er|] eqn:Hf.
  - simpl. split; [split; [discriminate | intros [H _]; discriminate] |].
    split; [|split; [reflexivity | reflexivity]].
    intros e H. inversion H; subst. simpl.
    split; [reflexivity | exists er; auto].
  - destruct (os_Kill (Pid p) (streams w)) as [[ek|] s'] eqn:Hk; simpl.
    + split; [split; [discriminate | intros [_ H]; discriminate] |].
      split; [|split; [intro H; congruence | reflexivity]].
      intros e H. inversion H; subst. simpl.
      split; [reflexivity | exists ek; auto].
    + split; [split; auto |].
      split; [intros e H; discriminate |].
      split; [intro H; congruence | reflexivity].
Qed.

(** [SetTimeout] stores its argument unchanged exactly when it fits a C
    [int]; arguments that differ by a multiple of [2^32] store the same
    timeout. *)
Theorem SetTimeout_stored (t : Z) (k : Z) (w : World Streams) :
  (exp_timeout (globals (SetTimeout t w)) = t <-> - 2 ^ 31 <= t < 2 ^ 31)
  /\ exp_timeout (globals (SetTimeout (t + k * 2 ^ 32) w))
     = exp_timeout (globals (SetTimeout t w)).
Proof.
  simpl. unfold to_int32. split.
  - pose proof (Z.mod_pos_bound t (2 ^ 32) ltac:(lia)) as Hb.
    destruct (Z.leb_spec (2 ^ 31) (t mod 2 ^ 32)) as [Hh | Hl]; split; intro H.
    + pose proof (Z.div_mod t (2 ^ 32) ltac:(lia)). lia.
    + destruct (Z.ltb_spec t 0).
      * rewrite <- (Z.mod_unique t (2 ^ 32) (-1) (t + 2 ^ 32)) in Hh |- *; lia.
      * rewrite Z.mod_small in Hh; lia.
    + pose proof (Z.div_mod t (2 ^ 32) ltac:(lia)). lia.
    + destruct (Z.ltb_spec t 0).
      * rewrite <- (Z.mod_unique t (2 ^ 32) (-1) (t + 2 ^ 32)) in Hl; lia.
      * rewrite Z.mod_small; lia.
  - rewrite Z_mod_plus_full. reflexivity.
Qed.

(** Calls to different setters commute: the order in which the timeout,
    the debug flag and the console flag are set does not matter. *)
Theorem setters_commute (t : Z) (d l : bool) (w : World Streams) :
  SetTimeout t (SetDebugging d w) = SetDebugging d (SetTimeout t w)
  /\ SetTimeout t (LogToConsole l w) = LogToConsole l (SetTimeout t w)
  /\ SetDebugging d (LogToConsole l w) = LogToConsole l (SetDebugging d w).
Proof.
  repeat split.
Qed.

End Extras.

Lemma returned_errors_well_formed_witness :
  exists msg, Error (mkExpectError (Some (mkPattern Compiled "x" 1)) None) = Some msg.
Proof.
  apply (proj1 (proj2 (returned_errors_well_formed string toy_spawnv toy_expectv
                         toy_findprocess toy_kill (toy_world "") "sed" []
                         toy_process [mkPattern Compiled "x" 1]))).
  reflexivity.
Defined.

Lemma Expectl_bad_pattern_iff_witness :
  exists v, snd (fst (Expectl toy_expectv toy_process
                        [mkPattern Exact "a" 1; mkPattern 0 "b" 2] (toy_world "a")))
            = Some (mkExpectError (Some v) None).
Proof.
  apply (proj1 (Expectl_bad_pattern_iff string toy_expectv toy_process
                  [mkPattern Exact "a" 1; mkPattern 0 "b" 2] (toy_world "a"))).
  right. left. reflexivity.
Defined.

Lemma make_ecases_terminator_last_witness :
  c_type (end_case) = _End
  /\ (c_pattern end_case = None <-> 2%nat = length [mkPattern Glob "a*" 1; mkPattern RegExp "b." 2]).
Proof.
  split; [reflexivity |].
  apply (make_ecases_terminator_last [mkPattern Glob "a*" 1; mkPattern RegExp "b." 2]).
  - constructor; [reflexivity | constructor; [reflexivity | constructor]].
  - reflexivity.
Defined.

Lemma Spawn_process_file_witness :
  exists f, File_ (fst (fst (Spawn toy_spawnv "sed" [] (toy_world "")))) = Some f
            /\ file_fd f = 3 /\ file_name f = "sed".
Proof.
  exists (mkFile 3 "sed"). split; [reflexivity |].
  apply (proj2 (Spawn_process_file string toy_spawnv "sed" [] (toy_world ""))
           (mkFile 3 "sed")).
  reflexivity.
Defined.

Lemma KillChild_outcomes_witness :
  fst (KillChild toy_findprocess toy_kill toy_process (toy_world "out")) = None.
Proof.
  apply (proj1 (KillChild_outcomes string toy_findprocess toy_kill toy_process
                  (toy_world "out"))).
  split; reflexivity.
Defined.

